(** * Reflex_101: the two to-do list stores

    A shallow embedding of the state classes of the two to-do applications
    of the repository,

      - [Indexed]: TODO_App/TODO_App/TODO_App.py, tasks referenced by list
        position;
      - [Keyed]:   TODO_App/todo_app.py, tasks referenced by the pair
        (description, created_at);

    and the properties of their event handlers.  Python strings are
    sequences of code points, lists of dicts are lists of records, and an
    event handler is a computation in a state-and-exception monad over
    the fields of the state class. *)

From Stdlib Require Import ZArith NArith Ascii String.
From stdpp Require Import base list.

Local Open Scope list_scope.

(** ** Python strings *)

Module PyStr.

(** A [str] is a sequence of Unicode code points. *)
Definition str : Type := list N.

(** A string literal of the source (ASCII only). *)
Definition lit (s : string) : str := List.map N_of_ascii (list_ascii_of_string s).

(** [str.isspace] on one character: the code points CPython classifies
    as whitespace. *)
Definition isspace (c : N) : bool :=
  ((9 <=? c) && (c <=? 13)         (* \t \n \v \f \r *)
   || (28 <=? c) && (c <=? 31)     (* FS GS RS US *)
   || (c =? 32)                    (* space *)
   || (c =? 133) || (c =? 160)     (* NEL, no-break space *)
   || (c =? 5760)
   || (8192 <=? c) && (c <=? 8202)
   || (c =? 8232) || (c =? 8233) || (c =? 8239) || (c =? 8287)
   || (c =? 12288))%N.

(** [s.lstrip()]: drop the leading whitespace. *)
Fixpoint lstrip (s : str) : str :=
  match s with
  | [] => []
  | c :: r => if isspace c then lstrip r else s
  end.

(** [s.rstrip()]: drop the trailing whitespace. *)
Definition rstrip (s : str) : str := rev (lstrip (rev s)).

(** [s.strip()]: drop the whitespace at both ends. *)
Definition strip (s : str) : str := rstrip (lstrip s).

(** Truthiness of a string: [not s] holds of the empty string only. *)
Definition truthy (s : str) : bool :=
  match s with [] => false | _ :: _ => true end.

(** Empty, or whitespace only. *)
Definition blank (s : str) : bool := forallb isspace s.

End PyStr.
Export PyStr.

(** ** Handlers: state and exceptions *)

Inductive exn : Set := IndexError | OverflowError.

(** A computation over a store [S]: it ends normally with a value or
    raises, and in both cases leaves a store behind. *)
Definition M (S A : Type) : Type := S → (exn + A) * S.

Section Monad.
Context {S : Type}.

Definition ret {A} (a : A) : M S A := λ s, (inr a, s).

Definition bind {A B} (m : M S A) (k : A → M S B) : M S B :=
  λ s, match m s with
       | (inr a, s') => k a s'
       | (inl e, s') => (inl e, s')
       end.

Definition get : M S S := λ s, (inr s, s).
Definition put (s : S) : M S unit := λ _, (inr tt, s).
Definition raise {A} (e : exn) : M S A := λ s, (inl e, s).
End Monad.

#[global] Instance M_ret {S} : MRet (M S) := @ret S.
#[global] Instance M_bind {S} : MBind (M S) := λ A B k m, bind m k.

(** ** Python list indexing *)

Section PyList.
Context {A : Type}.

(** The position a subscript denotes in a list of length [n]: a
    negative subscript counts from the end; [None] when the subscript
    is out of range. *)
Definition norm_index (n : nat) (i : Z) : option nat :=
  let j := (if i <? 0 then i + Z.of_nat n else i)%Z in
  if ((0 <=? j) && (j <? Z.of_nat n))%Z then Some (Z.to_nat j) else None.

(** [l[i]] *)
Definition getitem {S} (l : list A) (i : Z) : M S A :=
  match norm_index (length l) i with
  | Some k => match l !! k with Some x => ret x | None => raise IndexError end
  | None => raise IndexError
  end.

(** The largest value of a C [Py_ssize_t], 2^63 - 1. *)
Definition PY_SSIZE_T_MAX : Z := 9223372036854775807.

(** Whether a Python int converts to a [Py_ssize_t]. *)
Definition fits_ssize_t (i : Z) : bool :=
  ((- PY_SSIZE_T_MAX - 1 <=? i) && (i <=? PY_SSIZE_T_MAX))%Z.

(** [l.pop(i)]: the item removed and the list left.  The argument is
    converted to a [Py_ssize_t], which raises [OverflowError] when it
    does not fit; one that fits and is out of range (or any, on an empty
    list) raises [IndexError].  A list never has more than
    [PY_SSIZE_T_MAX] items, so a subscript in range always fits.  The
    subscription [l[i]] above reports both failures as [IndexError]. *)
Definition pop {S} (l : list A) (i : Z) : M S (A * list A) :=
  match norm_index (length l) i with
  | Some k => match l !! k with
              | Some x => ret (x, delete k l)
              | None => raise IndexError
              end
  | None => if fits_ssize_t i then raise IndexError else raise OverflowError
  end.

(** [[x for x in l if p x]] *)
Definition comprehension (p : A → bool) (l : list A) : list A := List.filter p l.
End PyList.

(** ** TODO_App/TODO_App/TODO_App.py *)

Module Indexed.

(** One entry of [todos]: the dict [{"text": ..., "completed": ...}]. *)
Record todo : Type := Todo { text : str; completed : bool }.

Record TodoState : Type := State {
  todos : list todo;
  new_todo : str;
  filter_status : str
}.

Definition initial : TodoState :=
  {| todos := []; new_todo := lit ""; filter_status := lit "all" |}.

Definition with_todos (l : list todo) (s : TodoState) : TodoState :=
  {| todos := l; new_todo := new_todo s; filter_status := filter_status s |}.
Definition with_new_todo (v : str) (s : TodoState) : TodoState :=
  {| todos := todos s; new_todo := v; filter_status := filter_status s |}.
Definition with_filter_status (v : str) (s : TodoState) : TodoState :=
  {| todos := todos s; new_todo := new_todo s; filter_status := v |}.

(** [d["completed"] = v] on the dict [d]. *)
Definition set_completed (v : bool) (d : todo) : todo :=
  {| text := text d; completed := v |}.

Definition add_todo : M TodoState unit :=
  self ← get;
  if bool_decide (strip (new_todo self) ≠ lit "") then
    put (with_todos (todos self ++ [Todo (new_todo self) false]) self);;
    self ← get;
    put (with_new_todo (lit "") self)
  else ret tt.

Definition toggle_todo (index : Z) : M TodoState unit :=
  self ← get;
  d ← getitem (todos self) index;
  let v := negb (completed d) in
  target ← getitem (todos self) index;
  match norm_index (length (todos self)) index with
  | Some k => put (with_todos (<[k := set_completed v target]> (todos self)) self)
  | None => raise IndexError
  end.

Definition delete_todo (index : Z) : M TodoState unit :=
  self ← get;
  r ← pop (todos self) index;
  put (with_todos (snd r) self).

Definition clear_completed : M TodoState unit :=
  self ← get;
  put (with_todos (comprehension (λ todo, negb (completed todo)) (todos self)) self).

Definition filtered_todos : M TodoState (list todo) :=
  self ← get;
  if bool_decide (filter_status self = lit "active") then
    ret (comprehension (λ todo, negb (completed todo)) (todos self))
  else if bool_decide (filter_status self = lit "completed") then
    ret (comprehension (λ todo, completed todo) (todos self))
  else ret (todos self).

Definition set_filter (status : str) : M TodoState unit :=
  self ← get;
  put (with_filter_status status self).

(** The setter the framework generates for the field [new_todo]; the
    input box is bound to it. *)
Definition set_new_todo (value : str) : M TodoState unit :=
  self ← get;
  put (with_new_todo value self).

(** [len(TodoState.todos)], the count the page shows. *)
Definition total (s : TodoState) : nat := length (todos s).

(** The events the page can send. *)
Inductive event : Type :=
| SetNewTodo (value : str)
| AddTodo
| ToggleTodo (index : Z)
| DeleteTodo (index : Z)
| ClearCompleted
| SetFilter (status : str).

Definition handle (e : event) : M TodoState unit :=
  match e with
  | SetNewTodo value => set_new_todo value
  | AddTodo => add_todo
  | ToggleTodo index => toggle_todo index
  | DeleteTodo index => delete_todo index
  | ClearCompleted => clear_completed
  | SetFilter status => set_filter status
  end.

(** The store after a sequence of events; an event whose handler raises
    leaves the store as the handler left it, and the next one runs. *)
Definition run (es : list event) (s : TodoState) : TodoState :=
  foldl (λ s e, snd (handle e s)) s es.

End Indexed.

(** ** TODO_App/todo_app.py *)

Module Keyed.

(** One entry of [tasks]: the dict
    [{"description": ..., "completed": ..., "created_at": ...}]. *)
Record task : Type := Task {
  description : str;
  completed : bool;
  created_at : str
}.

Record TodoState : Type := State {
  tasks : list task;
  new_task_description : str
}.

Definition initial : TodoState :=
  {| tasks := []; new_task_description := lit "" |}.

Definition with_tasks (l : list task) (s : TodoState) : TodoState :=
  {| tasks := l; new_task_description := new_task_description s |}.
Definition with_new_task_description (v : str) (s : TodoState) : TodoState :=
  {| tasks := tasks s; new_task_description := v |}.

(** [d["completed"] = not d["completed"]] on the dict [d]. *)
Definition flip_completed (d : task) : task :=
  {| description := description d;
     completed := negb (completed d);
     created_at := created_at d |}.

(** [a["description"] == b["description"] and
     a["created_at"] == b["created_at"]] *)
Definition same_key (a b : task) : bool :=
  bool_decide (description a = description b)
  && bool_decide (created_at a = created_at b).

(** [add_task]; [now] is what
    [datetime.datetime.now().strftime("%Y-%m-%d %H:%M")] gives at the
    call.  The message printed to the console on an empty input is not
    part of the store. *)
Definition add_task (now : str) : M TodoState unit :=
  self ← get;
  if negb (truthy (strip (new_task_description self))) then ret tt
  else
    put (with_tasks
           (tasks self ++ [Task (strip (new_task_description self)) false now])
           self);;
    self ← get;
    put (with_new_task_description (lit "") self).

(** The loop of [toggle_complete]: [rest] is what [enumerate] has still
    to yield, [i] the index of its head, [l] the list [self.tasks]. *)
Fixpoint toggle_loop (task_to_toggle : task) (i : nat) (rest l : list task)
  : list task :=
  match rest with
  | [] => l
  | task :: rest' =>
      if same_key task task_to_toggle
      then alter flip_completed i l                      (* break *)
      else toggle_loop task_to_toggle (S i) rest' l
  end.

Definition toggle_complete (task_to_toggle : task) : M TodoState unit :=
  self ← get;
  put (with_tasks (toggle_loop task_to_toggle 0 (tasks self) (tasks self)) self).

Definition delete_task (task_to_delete : task) : M TodoState unit :=
  self ← get;
  put (with_tasks
         (comprehension (λ task, negb (same_key task task_to_delete)) (tasks self))
         self).

Definition completed_tasks_count (s : TodoState) : nat :=
  list_sum (List.map (λ _, 1) (comprehension completed (tasks s))).

Definition total_tasks_count (s : TodoState) : nat := length (tasks s).

(** The setter the framework generates for [new_task_description]. *)
Definition set_new_task_description (value : str) : M TodoState unit :=
  self ← get;
  put (with_new_task_description value self).

(** The events the page can send. *)
Inductive event : Type :=
| SetNewTaskDescription (value : str)
| AddTask (now : str)
| ToggleComplete (task_to_toggle : task)
| DeleteTask (task_to_delete : task).

Definition handle (e : event) : M TodoState unit :=
  match e with
  | SetNewTaskDescription value => set_new_task_description value
  | AddTask now => add_task now
  | ToggleComplete t => toggle_complete t
  | DeleteTask t => delete_task t
  end.

Definition run (es : list event) (s : TodoState) : TodoState :=
  foldl (λ s e, snd (handle e s)) s es.

End Keyed.

(** ** Specification vocabulary *)

(** [r] is exactly the subsequence of [l] of the elements satisfying [P]:
    an order-preserving selection from [l], all of whose elements satisfy
    [P], and which contains every other such selection. *)
Definition subseq_where {A} (P : A → Prop) (r l : list A) : Prop :=
  sublist r l ∧ Forall P r ∧ ∀ k, sublist k l → Forall P k → sublist k r.

(** The filter values the page sends. *)
Definition recognized (status : str) : Prop :=
  status = lit "all" ∨ status = lit "active" ∨ status = lit "completed".

(** A handler returned normally. *)
Definition returns {S A} (r : (exn + A) * S) : Prop :=
  match fst r with inr _ => True | inl _ => False end.

(** The position an in-range subscript denotes in a list of length [n]. *)
Definition position (n : nat) (i : Z) : nat :=
  Z.to_nat (if (i <? 0)%Z then i + Z.of_nat n else i).

(** The three filters of the page and the strings its buttons send. *)
Inductive Filter : Set := All | Active | Completed.

Definition filter_value (f : Filter) : str :=
  match f with
  | All => lit "all"
  | Active => lit "active"
  | Completed => lit "completed"
  end.

(** What the view under filter [f] has to be, for the task list [l]. *)
Definition selects (f : Filter) (view l : list Indexed.todo) : Prop :=
  match f with
  | All => view = l
  | Active => subseq_where (λ t, Indexed.completed t = false) view l
  | Completed => subseq_where (λ t, Indexed.completed t = true) view l
  end.

(** The invariant of the index-based store. *)
Definition texts_not_blank (s : Indexed.TodoState) : Prop :=
  Forall (λ t, blank (Indexed.text t) = false) (Indexed.todos s).

(** The invariant of the key-based store. *)
Definition descriptions_not_blank (s : Keyed.TodoState) : Prop :=
  Forall (λ t, blank (Keyed.description t) = false) (Keyed.tasks s).

(** The store of the scenario of the specification: "Buy milk" done,
    "Walk dog" open. *)
Definition milk_and_dog (status : str) : Indexed.TodoState :=
  Indexed.State
    [Indexed.Todo (lit "Buy milk") true; Indexed.Todo (lit "Walk dog") false]
    (lit "") status.

(** Two tasks entered with the same text within one minute, and a third. *)
Definition twins : Keyed.TodoState :=
  Keyed.State
    [Keyed.Task (lit "Buy milk") false (lit "2024-01-01 10:00");
     Keyed.Task (lit "Walk dog") false (lit "2024-01-01 10:00");
     Keyed.Task (lit "Buy milk") true (lit "2024-01-01 10:00")]
    (lit "").

(** ** Strings: stripping and blankness *)

Section StripFacts.

Lemma lstrip_head (s : str) :
  lstrip s = [] ∨ ∃ c r, lstrip s = c :: r ∧ isspace c = false.
Proof.
  induction s as [|c r IH]; simpl; [by left|].
  destruct (isspace c) eqn:Hc; [exact IH|].
  right. by exists c, r.
Qed.

Lemma lstrip_nil_iff_blank (s : str) : lstrip s = [] ↔ blank s = true.
Proof.
  unfold blank. induction s as [|c r IH]; simpl; [done|].
  destruct (isspace c); simpl; [exact IH|].
  split; discriminate.
Qed.

Lemma blank_lstrip (s : str) : blank (lstrip s) = blank s.
Proof.
  unfold blank. induction s as [|c r IH]; simpl; [done|].
  destruct (isspace c) eqn:Hc; simpl; [exact IH|].
  by rewrite Hc.
Qed.

Lemma blank_rev (s : str) : blank (rev s) = blank s.
Proof.
  unfold blank. apply eq_true_iff_eq.
  rewrite !forallb_forall. split; intros H x Hx; apply H.
  - by apply in_rev in Hx.
  - by apply in_rev.
Qed.

Lemma blank_strip (s : str) : blank (strip s) = blank s.
Proof.
  unfold strip, rstrip.
  by rewrite blank_rev, blank_lstrip, blank_rev, blank_lstrip.
Qed.

Lemma strip_nil_iff_blank (s : str) : strip s = [] ↔ blank s = true.
Proof.
  rewrite <- blank_strip. split; [by intros ->|].
  unfold strip, rstrip. rewrite blank_rev. intros H.
  destruct (lstrip_head (rev (lstrip s))) as [->|(c & r & Hs & Hc)]; [done|].
  rewrite Hs in H. unfold blank in H. simpl in H. by rewrite Hc in H.
Qed.

Lemma strip_not_blank (s : str) : strip s ≠ [] → blank s = false.
Proof.
  intros H. destruct (blank s) eqn:Hb; [|done].
  by apply strip_nil_iff_blank in Hb.
Qed.

End StripFacts.

(** ** Lists: comprehensions and subscripts *)

Section ListFacts.
Context {A : Type}.
Implicit Types (l k r : list A) (p : A → bool).

Lemma comprehension_sublist p l : sublist (comprehension p l) l.
Proof.
  unfold comprehension.
  induction l as [|x l IH]; simpl; [constructor|].
  destruct (p x); by constructor.
Qed.

Lemma comprehension_Forall p l : Forall (λ x, p x = true) (comprehension p l).
Proof.
  unfold comprehension.
  induction l as [|x l IH]; simpl; [constructor|].
  destruct (p x) eqn:Hx; [by constructor | exact IH].
Qed.

Lemma comprehension_greatest p l k :
  sublist k l → Forall (λ x, p x = true) k → sublist k (comprehension p l).
Proof.
  unfold comprehension.
  induction 1 as [|x k l Hkl IH|x k l Hkl IH]; intros Hk; simpl.
  - constructor.
  - inversion Hk as [|? ? Hx Hk']; subst. rewrite Hx.
    constructor. by apply IH.
  - destruct (p x); [constructor|]; by apply IH.
Qed.

Lemma comprehension_subseq_where p l :
  subseq_where (λ x, p x = true) (comprehension p l) l.
Proof.
  split; [apply comprehension_sublist|].
  split; [apply comprehension_Forall|].
  intros k. apply comprehension_greatest.
Qed.

(** The characterisation determines the subsequence. *)
Lemma subseq_where_unique (P : A → Prop) r r' l :
  subseq_where P r l → subseq_where P r' l → r = r'.
Proof.
  intros (Hs & HP & Hmax) (Hs' & HP' & Hmax').
  apply (anti_symm sublist); auto.
Qed.

Lemma comprehension_id p l :
  Forall (λ x, p x = true) l → comprehension p l = l.
Proof.
  unfold comprehension.
  induction 1 as [|x l Hx Hl IH]; simpl; [done|].
  by rewrite Hx, IH.
Qed.

Lemma comprehension_idemp p l :
  comprehension p (comprehension p l) = comprehension p l.
Proof. apply comprehension_id, comprehension_Forall. Qed.

Lemma norm_index_lt n (i : Z) j : norm_index n i = Some j → j < n.
Proof.
  unfold norm_index.
  destruct (i <? 0)%Z eqn:Hi; case_match; intros [= <-]; lia.
Qed.

Lemma norm_index_nonneg n (i : Z) :
  (0 ≤ i < Z.of_nat n)%Z → norm_index n i = Some (Z.to_nat i).
Proof.
  intros Hi. unfold norm_index.
  destruct (i <? 0)%Z eqn:Hneg; [lia|].
  case_match; [done | lia].
Qed.

Lemma norm_index_neg n (i : Z) :
  (- Z.of_nat n ≤ i < 0)%Z → norm_index n i = Some (Z.to_nat (i + Z.of_nat n)).
Proof.
  intros Hi. unfold norm_index.
  destruct (i <? 0)%Z eqn:Hneg; [|lia].
  case_match; [done | lia].
Qed.

Lemma norm_index_out n (i : Z) :
  (i < - Z.of_nat n ∨ Z.of_nat n ≤ i)%Z → norm_index n i = None.
Proof.
  intros Hi. unfold norm_index.
  destruct (i <? 0)%Z eqn:Hneg; case_match; try done; lia.
Qed.

End ListFacts.

(** Unfolding one handler down to the store it leaves. *)
Ltac run_handler :=
  unfold mbind, M_bind, mret, M_ret, bind, get, put, ret, raise; simpl.

Section MoreListFacts.
Context {A : Type}.

Lemma subseq_where_iff (P Q : A → Prop) (r l : list A) :
  (∀ x, P x ↔ Q x) → subseq_where P r l → subseq_where Q r l.
Proof.
  intros HPQ (Hs & HP & Hmax). split; [done|]. split.
  - eapply Forall_impl; [exact HP|]. intros x. apply HPQ.
  - intros k Hk HQ. apply Hmax; [done|].
    eapply Forall_impl; [exact HQ|]. intros x. apply HPQ.
Qed.

Lemma norm_index_in_range n (i : Z) :
  (- Z.of_nat n ≤ i < Z.of_nat n)%Z → norm_index n i = Some (position n i).
Proof.
  intros Hi. unfold position.
  destruct (i <? 0)%Z eqn:Hneg.
  - apply norm_index_neg. lia.
  - apply norm_index_nonneg. lia.
Qed.

Lemma position_lt n (i : Z) :
  (- Z.of_nat n ≤ i < Z.of_nat n)%Z → position n i < n.
Proof. intros Hi. eapply norm_index_lt, norm_index_in_range, Hi. Qed.

(** What is left after [delete k], with the item put back. *)
Lemma delete_reinsert (l : list A) k x :
  l !! k = Some x → l = take k (delete k l) ++ x :: drop k (delete k l).
Proof.
  revert k. induction l as [|y l IH]; intros [|k] Hk; simplify_eq/=; [done|].
  f_equal. by apply IH.
Qed.

Lemma position_nonneg n (i : Z) : (0 ≤ i)%Z → position n i = Z.to_nat i.
Proof. intros Hi. unfold position. destruct (i <? 0)%Z eqn:Hneg; [lia|done]. Qed.
End MoreListFacts.

(** ** The handlers of the index-based store, as equations *)

Section IndexedHandlers.
Import Indexed.
Implicit Types (s : TodoState) (i : Z) (k : nat) (t : todo).

Lemma with_todos_id s : with_todos (todos s) s = s.
Proof. by destruct s. Qed.

Lemma add_todo_eq s :
  strip (new_todo s) ≠ lit "" →
  add_todo s =
    (inr tt, State (todos s ++ [Todo (new_todo s) false]) (lit "") (filter_status s)).
Proof.
  intros H. unfold add_todo. run_handler.
  by rewrite bool_decide_eq_true_2.
Qed.

Lemma add_todo_blank s : strip (new_todo s) = lit "" → add_todo s = (inr tt, s).
Proof.
  intros H. unfold add_todo. run_handler.
  by rewrite bool_decide_eq_false_2 by (intros Hn; by apply Hn).
Qed.

Lemma toggle_todo_eq s i k t :
  norm_index (length (todos s)) i = Some k →
  todos s !! k = Some t →
  toggle_todo i s =
    (inr tt, with_todos (<[k := Todo (text t) (negb (completed t))]> (todos s)) s).
Proof.
  intros Hi Hk. unfold toggle_todo, getitem. run_handler.
  by rewrite Hi, Hk.
Qed.

Lemma toggle_todo_raise s i :
  norm_index (length (todos s)) i = None → toggle_todo i s = (inl IndexError, s).
Proof.
  intros Hi. unfold toggle_todo, getitem. run_handler. by rewrite Hi.
Qed.

Lemma delete_todo_eq s i k :
  norm_index (length (todos s)) i = Some k →
  delete_todo i s = (inr tt, with_todos (delete k (todos s)) s).
Proof.
  intros Hi. unfold delete_todo, pop. run_handler. rewrite Hi.
  destruct (lookup_lt_is_Some_2 (todos s) k) as [t Ht];
    [by eapply norm_index_lt|].
  by rewrite Ht.
Qed.

Lemma delete_todo_raise s i :
  norm_index (length (todos s)) i = None →
  delete_todo i s
  = (inl (if fits_ssize_t i then IndexError else OverflowError), s).
Proof.
  intros Hi. unfold delete_todo, pop. run_handler. rewrite Hi.
  by destruct (fits_ssize_t i).
Qed.

Lemma filtered_todos_active s :
  filter_status s = lit "active" →
  filtered_todos s = (inr (comprehension (λ t, negb (completed t)) (todos s)), s).
Proof. intros H. unfold filtered_todos. run_handler. by rewrite H. Qed.

Lemma filtered_todos_completed s :
  filter_status s = lit "completed" →
  filtered_todos s = (inr (comprehension completed (todos s)), s).
Proof. intros H. unfold filtered_todos. run_handler. by rewrite H. Qed.

Lemma filtered_todos_other s :
  filter_status s ≠ lit "active" → filter_status s ≠ lit "completed" →
  filtered_todos s = (inr (todos s), s).
Proof.
  intros Ha Hc. unfold filtered_todos. run_handler.
  by rewrite !bool_decide_eq_false_2.
Qed.

End IndexedHandlers.

(** ** The index-based store: views, clearing, deleting, toggling *)

Section IndexedClaims.
Import Indexed.
Implicit Types (s : TodoState) (i : Z) (status : str).

(** C4: whatever the store, [filtered_todos] returns exactly the
    subsequence of the tasks with [completed == false] under the filter
    Active, exactly the subsequence with [completed == true] under
    Completed, and the whole task list under All, each time in the
    original order; the store it leaves is the store it found. *)
Theorem filtered_todos_selects s (f : Filter) :
  filter_status s = filter_value f →
  ∃ view, filtered_todos s = (inr view, s) ∧ selects f view (todos s).
Proof.
  intros Hf. destruct f; simpl in *.
  - exists (todos s). split; [|done].
    apply filtered_todos_other; rewrite Hf; by vm_compute.
  - eexists. split; [by apply filtered_todos_active|].
    eapply subseq_where_iff; [|apply comprehension_subseq_where].
    intros t. simpl. by destruct (completed t).
  - eexists. split; [by apply filtered_todos_completed|].
    apply comprehension_subseq_where.
Qed.

Lemma filtered_todos_selects_witness :
  filter_status (milk_and_dog (lit "completed")) = filter_value Completed ∧
  ∃ view,
    filtered_todos (milk_and_dog (lit "completed"))
      = (inr view, milk_and_dog (lit "completed"))
    ∧ selects Completed view (todos (milk_and_dog (lit "completed"))).
Proof.
  split; [reflexivity|].
  apply (filtered_todos_selects (milk_and_dog (lit "completed")) Completed).
  reflexivity.
Defined.

(** C5: in every state [clear_completed] keeps exactly the tasks whose
    [completed] flag is false (so it removes exactly those whose flag is
    true), in their original order, touches no other field, and running
    it twice in a row leaves the same store as running it once. *)
Theorem clear_completed_removes_done s :
  ∃ s', clear_completed s = (inr tt, s')
    ∧ subseq_where (λ t, completed t = false) (todos s') (todos s)
    ∧ new_todo s' = new_todo s
    ∧ filter_status s' = filter_status s
    ∧ (clear_completed;; clear_completed) s = clear_completed s.
Proof.
  eexists. split; [reflexivity|]. simpl. split; [|split; [done|split; [done|]]].
  - eapply subseq_where_iff; [|apply comprehension_subseq_where].
    intros t. simpl. by destruct (completed t).
  - unfold clear_completed. run_handler.
    unfold with_todos. simpl. by rewrite comprehension_idemp.
Qed.

(** C6: for every subscript [i] in range of the task list (a negative
    one counts from the end, as Python subscripts do), [delete_todo i]
    returns normally, lowers the total by exactly 1 and removes exactly
    the task at the position [i] denotes: the tasks before it keep their
    positions, the tasks after it move down by one, and the other fields
    are untouched. *)
Theorem delete_todo_removes_position s i :
  (- Z.of_nat (total s) ≤ i < Z.of_nat (total s))%Z →
  let k := position (total s) i in
  ∃ s' t,
    todos s !! k = Some t
    ∧ delete_todo i s = (inr tt, s')
    ∧ total s' + 1 = total s
    ∧ todos s = take k (todos s') ++ t :: drop k (todos s')
    ∧ (∀ j, j < k → todos s' !! j = todos s !! j)
    ∧ (∀ j, k ≤ j → todos s' !! j = todos s !! S j)
    ∧ new_todo s' = new_todo s
    ∧ filter_status s' = filter_status s.
Proof.
  intros Hi k.
  assert (Hk : k < length (todos s)) by by apply position_lt.
  unfold total in *.
  destruct (lookup_lt_is_Some_2 _ _ Hk) as [t Ht].
  exists (with_todos (delete k (todos s)) s), t.
  split; [done|]. split.
  { apply delete_todo_eq. by apply norm_index_in_range. }
  simpl. split; [rewrite length_delete by eauto; lia|].
  split; [|split; [|split; [|done]]].
  - by apply delete_reinsert.
  - intros j Hj. by apply list_lookup_delete_lt.
  - intros j Hj. by apply list_lookup_delete_ge.
Qed.

Lemma delete_todo_removes_position_witness :
  (- Z.of_nat (total (milk_and_dog (lit "all"))) ≤ 0
     < Z.of_nat (total (milk_and_dog (lit "all"))))%Z
  ∧ ∃ s' t,
      todos (milk_and_dog (lit "all")) !! 0 = Some t
      ∧ delete_todo 0 (milk_and_dog (lit "all")) = (inr tt, s')
      ∧ total s' + 1 = 2.
Proof.
  split; [vm_compute; split; [discriminate | reflexivity]|].
  destruct (delete_todo_removes_position (milk_and_dog (lit "all")) 0)
    as (s' & t & Ht & Hd & Hn & _).
  - vm_compute; split; [discriminate | reflexivity].
  - exists s', t. auto.
Defined.

(** C10: for every subscript [i] in range, [toggle_todo i] returns
    normally and changes only the [completed] flag of the task at the
    position [i] denotes: that task keeps its text and gets the negated
    flag, the list keeps its length, every other position keeps its
    task, the texts are the same in the same order, and the pending
    input and the filter are untouched. *)
Theorem toggle_todo_flips_only_flag s i :
  (- Z.of_nat (total s) ≤ i < Z.of_nat (total s))%Z →
  let k := position (total s) i in
  ∃ s' t,
    todos s !! k = Some t
    ∧ toggle_todo i s = (inr tt, s')
    ∧ todos s' !! k = Some (Todo (text t) (negb (completed t)))
    ∧ length (todos s') = length (todos s)
    ∧ (∀ j, j ≠ k → todos s' !! j = todos s !! j)
    ∧ text <$> todos s' = text <$> todos s
    ∧ new_todo s' = new_todo s
    ∧ filter_status s' = filter_status s.
Proof.
  intros Hi k.
  assert (Hk : k < length (todos s)) by by apply position_lt.
  unfold total in *.
  destruct (lookup_lt_is_Some_2 _ _ Hk) as [t Ht].
  exists (with_todos (<[k := Todo (text t) (negb (completed t))]> (todos s)) s), t.
  split; [done|]. split.
  { apply toggle_todo_eq; [by apply norm_index_in_range | done]. }
  simpl. split; [by apply list_lookup_insert_eq|].
  split; [by rewrite length_insert|].
  split; [intros j Hj; by apply list_lookup_insert_ne|].
  split; [|done].
  rewrite list_fmap_insert. simpl.
  apply list_insert_id. by rewrite list_lookup_fmap, Ht.
Qed.

Lemma toggle_todo_flips_only_flag_witness :
  (- Z.of_nat (total (milk_and_dog (lit "all"))) ≤ -1
     < Z.of_nat (total (milk_and_dog (lit "all"))))%Z
  ∧ ∃ s' t,
      todos (milk_and_dog (lit "all")) !! 1 = Some t
      ∧ toggle_todo (-1) (milk_and_dog (lit "all")) = (inr tt, s')
      ∧ todos s' !! 1 = Some (Todo (text t) (negb (completed t))).
Proof.
  split; [vm_compute; split; [discriminate | reflexivity]|].
  destruct (toggle_todo_flips_only_flag (milk_and_dog (lit "all")) (-1))
    as (s' & t & Ht & Hd & Hn & _).
  - vm_compute; split; [discriminate | reflexivity].
  - exists s', t. auto.
Defined.

End IndexedClaims.

(** ** The index-based store: the filter field *)

Section FilterClaims.
Import Indexed.
Implicit Types (s : TodoState) (status : str).

(** C9: [set_filter] accepts every string: it returns normally and
    stores the string as the filter, touching nothing else.  In a store
    whose filter is any string other than "active" and "completed",
    [filtered_todos] returns the whole task list, which is what it
    returns under "all". *)
Theorem unrecognized_filter_shows_all s status :
  set_filter status s = (inr tt, with_filter_status status s)
  ∧ (status ≠ lit "active" → status ≠ lit "completed" →
     filtered_todos (with_filter_status status s)
       = (inr (todos s), with_filter_status status s)
     ∧ fst (filtered_todos (with_filter_status status s))
       = fst (filtered_todos (with_filter_status (lit "all") s))).
Proof.
  split; [reflexivity|]. intros Ha Hc.
  rewrite (filtered_todos_other (with_filter_status status s)) by done.
  done.
Qed.

Lemma unrecognized_filter_shows_all_witness :
  set_filter (lit "bogus") (milk_and_dog (lit "active"))
    = (inr tt, milk_and_dog (lit "bogus"))
  ∧ filtered_todos (milk_and_dog (lit "bogus"))
    = (inr (todos (milk_and_dog (lit "active"))), milk_and_dog (lit "bogus")).
Proof.
  destruct (unrecognized_filter_shows_all
              (milk_and_dog (lit "active")) (lit "bogus")) as [Hset Hview].
  split; [exact Hset|].
  apply Hview; vm_compute; discriminate.
Defined.

(** C3, as the code has it: [set_filter] validates nothing.  For every
    string that is not one of the recognized filter values it returns
    normally, raising nothing, and the filter field becomes that
    string; the tasks and the pending input are untouched. *)
Theorem set_filter_stores_unrecognized s status :
  ¬ recognized status →
  ∃ s', set_filter status s = (inr tt, s')
    ∧ filter_status s' = status
    ∧ todos s' = todos s
    ∧ new_todo s' = new_todo s.
Proof. intros _. by eexists. Qed.

Lemma set_filter_stores_unrecognized_witness :
  ¬ recognized (lit "bogus")
  ∧ ∃ s', set_filter (lit "bogus") initial = (inr tt, s')
      ∧ filter_status s' = lit "bogus"
      ∧ todos s' = todos initial
      ∧ new_todo s' = new_todo initial.
Proof.
  assert (H : ¬ recognized (lit "bogus")).
  { intros [H|[H|H]]; vm_compute in H; discriminate. }
  split; [exact H|].
  exact (set_filter_stores_unrecognized initial (lit "bogus") H).
Defined.

(** C3 as stated fails on "bogus": the call does not fail, and the
    filter does not stay at its prior value "all". *)
Lemma set_filter_bogus_not_rejected :
  returns (set_filter (lit "bogus") initial)
  ∧ filter_status (snd (set_filter (lit "bogus") initial)) = lit "bogus"
  ∧ filter_status (snd (set_filter (lit "bogus") initial)) ≠ filter_status initial
  ∧ ¬ recognized (lit "bogus").
Proof.
  repeat split; try (vm_compute; discriminate).
  intros [H|[H|H]]; vm_compute in H; discriminate.
Qed.

End FilterClaims.

(** ** The handlers of the key-based store, as equations *)

Section KeyedHandlers.
Import Keyed.
Implicit Types (s : TodoState) (key t : task) (l rest : list task).

Lemma with_tasks_id s : with_tasks (tasks s) s = s.
Proof. by destruct s. Qed.

Lemma same_key_spec t key :
  same_key t key = true
  ↔ description t = description key ∧ created_at t = created_at key.
Proof.
  unfold same_key. rewrite andb_true_iff, !bool_decide_eq_true. done.
Qed.

Lemma same_key_false t key :
  same_key t key = false
  ↔ ¬ (description t = description key ∧ created_at t = created_at key).
Proof. rewrite <- same_key_spec. by destruct (same_key t key). Qed.

Lemma add_task_eq s now :
  strip (new_task_description s) ≠ lit "" →
  add_task now s =
    (inr tt,
     State (tasks s ++ [Task (strip (new_task_description s)) false now]) (lit "")).
Proof.
  intros H. unfold add_task. run_handler.
  destruct (strip (new_task_description s)); [done|]. done.
Qed.

Lemma add_task_blank s now :
  strip (new_task_description s) = lit "" → add_task now s = (inr tt, s).
Proof. intros H. unfold add_task. run_handler. by rewrite H. Qed.

(** The loop changes nothing when nothing it visits has the key. *)
Lemma toggle_loop_no_match key i rest l :
  Forall (λ t, same_key t key = false) rest → toggle_loop key i rest l = l.
Proof.
  intros H. revert i. induction H as [|t rest Ht _ IH]; intros i; simpl; [done|].
  rewrite Ht. apply IH.
Qed.

(** The loop never changes a description. *)
Lemma toggle_loop_descriptions key i rest l :
  description <$> toggle_loop key i rest l = description <$> l.
Proof.
  revert i. induction rest as [|t rest IH]; intros i; simpl; [done|].
  destruct (same_key t key); [|apply IH].
  rewrite (list_fmap_alter description flip_completed id).
  - by apply list_alter_id.
  - by apply Forall_true.
Qed.

End KeyedHandlers.

(** ** The key-based store: deleting *)

Section KeyedClaims.
Import Keyed.
Implicit Types (s : TodoState) (key : task).

(** C8: [delete_task] with a key (description, created_at) returns
    normally and leaves exactly the subsequence of the tasks that do not
    have both the description and the creation time of the key: every
    matching task is removed, not only the first, and the others stay in
    their order; the pending input is untouched. *)
Theorem delete_task_removes_every_match s key :
  ∃ s', delete_task key s = (inr tt, s')
    ∧ subseq_where
        (λ t, ¬ (description t = description key ∧ created_at t = created_at key))
        (tasks s') (tasks s)
    ∧ new_task_description s' = new_task_description s.
Proof.
  eexists. split; [reflexivity|]. simpl. split; [|done].
  eapply subseq_where_iff; [|apply comprehension_subseq_where].
  intros t. simpl. rewrite negb_true_iff. apply same_key_false.
Qed.

(** Both twins go, in one call. *)
Example delete_task_twins :
  delete_task (Task (lit "Buy milk") false (lit "2024-01-01 10:00")) twins
  = (inr tt,
     State [Task (lit "Walk dog") false (lit "2024-01-01 10:00")] (lit "")).
Proof. reflexivity. Qed.

End KeyedClaims.

(** ** Adding a task *)

Section AddClaims.

(** What [add_task] of the key-based store does on an input that is not
    blank: one task appended, with the trimmed input as description and
    not completed; the earlier tasks as they were; the input cleared. *)
Lemma add_task_appends_trimmed (s : Keyed.TodoState) (now : str) :
  strip (Keyed.new_task_description s) ≠ lit "" →
  ∃ s', Keyed.add_task now s = (inr tt, s')
    ∧ Keyed.tasks s'
      = Keyed.tasks s
        ++ [Keyed.Task (strip (Keyed.new_task_description s)) false now]
    ∧ Keyed.total_tasks_count s' = Keyed.total_tasks_count s + 1
    ∧ Keyed.new_task_description s' = lit "".
Proof.
  intros H. eexists. split; [by apply add_task_eq|].
  simpl. split; [done|]. split; [|done].
  unfold Keyed.total_tasks_count. simpl. by rewrite length_app.
Qed.

(** What [add_todo] of the index-based store does on an input that is
    not blank: one task appended, not completed, whose text is the
    input as typed; the earlier tasks as they were; the input cleared. *)
Lemma add_todo_appends_raw (s : Indexed.TodoState) :
  strip (Indexed.new_todo s) ≠ lit "" →
  ∃ s', Indexed.add_todo s = (inr tt, s')
    ∧ Indexed.todos s'
      = Indexed.todos s ++ [Indexed.Todo (Indexed.new_todo s) false]
    ∧ Indexed.total s' = Indexed.total s + 1
    ∧ Indexed.new_todo s' = lit ""
    ∧ Indexed.filter_status s' = Indexed.filter_status s.
Proof.
  intros H. eexists. split; [by apply add_todo_eq|].
  simpl. split; [done|]. split; [|done].
  unfold Indexed.total. simpl. by rewrite length_app.
Qed.

(** C1, on the index-based store with the input " a ": the trimmed
    input is "a" and not empty, [add_todo] appends one task and clears
    the input, but the text of the new task is " a ", the input as
    typed, and not its trim. *)
Theorem add_todo_keeps_surrounding_whitespace :
  let s := Indexed.with_new_todo (lit " a ") Indexed.initial in
  strip (Indexed.new_todo s) = lit "a"
  ∧ Indexed.add_todo s
    = (inr tt,
       Indexed.State [Indexed.Todo (lit " a ") false] (lit "") (lit "all"))
  ∧ Indexed.text <$> Indexed.todos (snd (Indexed.add_todo s))
    ≠ [strip (Indexed.new_todo s)].
Proof. split; [reflexivity|]. split; [reflexivity|]. vm_compute. discriminate. Qed.

(** The key-based store on the same input stores "a". *)
Example add_task_trims (now : str) :
  Keyed.add_task now (Keyed.with_new_task_description (lit " a ") Keyed.initial)
  = (inr tt, Keyed.State [Keyed.Task (lit "a") false now] (lit "")).
Proof. reflexivity. Qed.

End AddClaims.

(** ** References that match no task *)

Section MissingReference.

(** C2 as stated fails on the index-based store: with two tasks, the
    subscript 2 is out of range, and both handlers raise. *)
Lemma stale_index_raises :
  norm_index (Indexed.total (milk_and_dog (lit "all"))) 2 = None
  ∧ fst (Indexed.toggle_todo 2 (milk_and_dog (lit "all"))) = inl IndexError
  ∧ fst (Indexed.delete_todo 2 (milk_and_dog (lit "all"))) = inl IndexError
  ∧ ¬ returns (Indexed.toggle_todo 2 (milk_and_dog (lit "all")))
  ∧ ¬ returns (Indexed.delete_todo 2 (milk_and_dog (lit "all"))).
Proof. repeat split; try reflexivity; intros []. Qed.

(** C2, as the code has it: a reference that matches no task never
    changes the store.  On the key-based store, for a key that no task
    has, [toggle_complete] and [delete_task] return normally with the
    store as it was.  On the index-based store, for a subscript out of
    range, [toggle_todo] raises [IndexError] and [delete_todo] raises
    [IndexError] when the subscript fits a C [Py_ssize_t]
    (-2^63 <= i < 2^63) and [OverflowError] when it does not; in each
    case the store is as it was. *)
Theorem missing_reference_leaves_store
    (s : Indexed.TodoState) (i : Z) (s2 : Keyed.TodoState) (key : Keyed.task) :
  (i < - Z.of_nat (Indexed.total s) ∨ Z.of_nat (Indexed.total s) ≤ i)%Z →
  (∀ t, t ∈ Keyed.tasks s2 →
        ¬ (Keyed.description t = Keyed.description key
           ∧ Keyed.created_at t = Keyed.created_at key)) →
  Keyed.toggle_complete key s2 = (inr tt, s2)
  ∧ Keyed.delete_task key s2 = (inr tt, s2)
  ∧ Indexed.toggle_todo i s = (inl IndexError, s)
  ∧ ((- PY_SSIZE_T_MAX - 1 ≤ i ≤ PY_SSIZE_T_MAX)%Z →
     Indexed.delete_todo i s = (inl IndexError, s))
  ∧ ((i < - PY_SSIZE_T_MAX - 1 ∨ PY_SSIZE_T_MAX < i)%Z →
     Indexed.delete_todo i s = (inl OverflowError, s)).
Proof.
  intros Hi Hkey.
  assert (Hall : Forall (λ t, Keyed.same_key t key = false) (Keyed.tasks s2)).
  { apply Forall_forall. intros t Ht. apply same_key_false. by apply Hkey. }
  apply norm_index_out in Hi.
  split; [|split; [|split; [|split]]].
  - unfold Keyed.toggle_complete. run_handler.
    by rewrite toggle_loop_no_match, with_tasks_id.
  - unfold Keyed.delete_task. run_handler.
    rewrite comprehension_id, with_tasks_id; [done|].
    eapply Forall_impl; [exact Hall|]. intros t Ht. simpl. by rewrite Ht.
  - by apply toggle_todo_raise.
  - intros Hfit. rewrite delete_todo_raise by done.
    unfold fits_ssize_t. by rewrite andb_true_intro by (split; lia).
  - intros Hbig. rewrite delete_todo_raise by done.
    unfold fits_ssize_t. destruct Hbig as [Hlo|Hhi].
    + by rewrite (proj2 (Z.leb_gt _ _)) by lia.
    + rewrite (proj2 (Z.leb_gt i _)) by lia. by rewrite andb_false_r.
Qed.

Lemma missing_reference_leaves_store_witness :
  Keyed.toggle_complete (Keyed.Task (lit "Feed cat") false (lit "2024-01-01 10:00")) twins
    = (inr tt, twins)
  ∧ Keyed.delete_task (Keyed.Task (lit "Feed cat") false (lit "2024-01-01 10:00")) twins
    = (inr tt, twins)
  ∧ Indexed.toggle_todo (-3) (milk_and_dog (lit "all"))
    = (inl IndexError, milk_and_dog (lit "all"))
  ∧ Indexed.delete_todo (-3) (milk_and_dog (lit "all"))
    = (inl IndexError, milk_and_dog (lit "all")).
Proof.
  destruct (missing_reference_leaves_store (milk_and_dog (lit "all")) (-3) twins
              (Keyed.Task (lit "Feed cat") false (lit "2024-01-01 10:00")))
    as (Htog & Hdel & Hsub & Hpop & _).
  - left. vm_compute. reflexivity.
  - intros t Ht [Hd _]. unfold twins in Ht. simpl in Ht.
    repeat (apply elem_of_cons in Ht as [->|Ht]; [vm_compute in Hd; discriminate|]).
    by apply elem_of_nil in Ht.
  - split; [exact Htog|]. split; [exact Hdel|]. split; [exact Hsub|].
    apply Hpop. vm_compute. split; discriminate.
Defined.

(** A subscript of 2^63 does not fit: [delete_todo] raises
    [OverflowError], where [toggle_todo] raises [IndexError]. *)
Example delete_todo_huge_subscript :
  Indexed.delete_todo 9223372036854775808 (milk_and_dog (lit "all"))
    = (inl OverflowError, milk_and_dog (lit "all"))
  ∧ Indexed.toggle_todo 9223372036854775808 (milk_and_dog (lit "all"))
    = (inl IndexError, milk_and_dog (lit "all")).
Proof. split; reflexivity. Qed.

End MissingReference.

(** ** No blank description, ever *)

Section Invariant.

Lemma Forall_of_sublist {A} (P : A → Prop) (k l : list A) :
  sublist k l → Forall P l → Forall P k.
Proof.
  induction 1 as [|x k l _ IH|x k l _ IH]; intros Hl; [done| |].
  - inversion Hl; subst. constructor; auto.
  - inversion Hl; subst. auto.
Qed.

Lemma indexed_handle_keeps (e : Indexed.event) (s : Indexed.TodoState) :
  texts_not_blank s → texts_not_blank (snd (Indexed.handle e s)).
Proof.
  unfold texts_not_blank. intros Hs.
  destruct e as [value| |index|index| |status]; simpl; try done.
  - destruct (decide (strip (Indexed.new_todo s) = lit "")) as [Hb|Hb].
    + by rewrite add_todo_blank.
    + rewrite add_todo_eq by done. simpl.
      apply Forall_app. split; [done|].
      constructor; [|done]. simpl. by apply strip_not_blank.
  - destruct (norm_index (length (Indexed.todos s)) index) as [k|] eqn:Hk.
    + destruct (lookup_lt_is_Some_2 (Indexed.todos s) k) as [t Ht];
        [by eapply norm_index_lt|].
      rewrite (toggle_todo_eq s index k t) by done. simpl.
      apply Forall_insert; [done|]. simpl.
      by apply (Forall_lookup_1 _ _ _ _ Hs Ht).
    + by rewrite toggle_todo_raise.
  - destruct (norm_index (length (Indexed.todos s)) index) as [k|] eqn:Hk.
    + rewrite (delete_todo_eq s index k) by done. simpl.
      by apply Forall_delete.
    + by rewrite delete_todo_raise.
  - eapply Forall_of_sublist; [apply comprehension_sublist | done].
Qed.

Lemma keyed_handle_keeps (e : Keyed.event) (s : Keyed.TodoState) :
  descriptions_not_blank s → descriptions_not_blank (snd (Keyed.handle e s)).
Proof.
  unfold descriptions_not_blank. intros Hs.
  destruct e as [value|now|key|key]; simpl; try done.
  - destruct (decide (strip (Keyed.new_task_description s) = lit "")) as [Hb|Hb].
    + by rewrite add_task_blank.
    + rewrite add_task_eq by done. simpl.
      apply Forall_app. split; [done|].
      constructor; [|done]. simpl.
      rewrite blank_strip. by apply strip_not_blank.
  - apply (Forall_fmap Keyed.description (λ d, blank d = false)).
    rewrite toggle_loop_descriptions.
    by apply (Forall_fmap Keyed.description (λ d, blank d = false)).
  - eapply Forall_of_sublist; [apply comprehension_sublist | done].
Qed.

Lemma indexed_run_keeps es s :
  texts_not_blank s → texts_not_blank (Indexed.run es s).
Proof.
  revert s. induction es as [|e es IH]; intros s Hs; simpl; [done|].
  by apply IH, indexed_handle_keeps.
Qed.

Lemma keyed_run_keeps es s :
  descriptions_not_blank s → descriptions_not_blank (Keyed.run es s).
Proof.
  revert s. induction es as [|e es IH]; intros s Hs; simpl; [done|].
  by apply IH, keyed_handle_keeps.
Qed.

(** C7: whatever sequence of events is applied to the empty store, of
    either application, no task of the resulting list has a description
    that is empty or made of whitespace only. *)
Theorem no_blank_description
    (es : list Indexed.event) (es' : list Keyed.event) :
  Forall (λ t, blank (Indexed.text t) = false)
         (Indexed.todos (Indexed.run es Indexed.initial))
  ∧ Forall (λ t, blank (Keyed.description t) = false)
           (Keyed.tasks (Keyed.run es' Keyed.initial)).
Proof.
  split.
  - apply (indexed_run_keeps es Indexed.initial). constructor.
  - apply (keyed_run_keeps es' Keyed.initial). constructor.
Qed.

(** The invariant is not empty of content: events do add tasks. *)
Example run_adds_tasks :
  Indexed.todos
    (Indexed.run [Indexed.SetNewTodo (lit "Buy milk"); Indexed.AddTodo;
                  Indexed.SetNewTodo (lit "   "); Indexed.AddTodo;
                  Indexed.SetNewTodo (lit "Walk dog"); Indexed.AddTodo;
                  Indexed.ToggleTodo 0]
                 Indexed.initial)
  = Indexed.todos (milk_and_dog (lit "all")).
Proof. reflexivity. Qed.

End Invariant.

(** ** More on the index-based store *)

Section IndexedMore.
Import Indexed.
Implicit Types (s : TodoState) (i : Z) (t : todo) (l : list todo).

Lemma strip_blank (v : str) : blank v = true → strip v = lit "".
Proof. apply strip_nil_iff_blank. Qed.

Lemma sublist_fmap_of {A B} (f : A → B) (k l : list A) :
  sublist k l → sublist (f <$> k) (f <$> l).
Proof. induction 1; simpl; by constructor. Qed.

Lemma comprehension_partition {A} (p : A → bool) (l : list A) :
  comprehension (λ x, negb (p x)) l ++ comprehension p l ≡ₚ l.
Proof.
  unfold comprehension. induction l as [|x l IH]; simpl; [done|].
  destruct (p x); simpl.
  - rewrite <- Permutation_middle. by constructor.
  - by constructor.
Qed.

Lemma comprehension_none {A} (p : A → bool) (l : list A) :
  Forall (λ x, p x = false) l → comprehension p l = [].
Proof.
  unfold comprehension. induction 1 as [|x l Hx _ IH]; simpl; [done|].
  by rewrite Hx.
Qed.

Lemma toggle_keeps_texts l (k : nat) t :
  l !! k = Some t →
  text <$> <[k := Todo (text t) (negb (completed t))]> l = text <$> l.
Proof.
  intros Ht. rewrite list_fmap_insert. simpl.
  apply list_insert_id. by rewrite list_lookup_fmap, Ht.
Qed.

(** On an input that is empty or all whitespace, [add_todo] returns
    normally and changes nothing: no task is added and the input is not
    cleared. *)
Theorem add_todo_ignores_blank s :
  blank (new_todo s) = true → add_todo s = (inr tt, s).
Proof. intros H. by apply add_todo_blank, strip_blank. Qed.

Lemma add_todo_ignores_blank_witness :
  blank (new_todo (with_new_todo (lit "  ") (milk_and_dog (lit "all")))) = true
  ∧ add_todo (with_new_todo (lit "  ") (milk_and_dog (lit "all")))
    = (inr tt, with_new_todo (lit "  ") (milk_and_dog (lit "all"))).
Proof.
  split; [reflexivity|].
  apply (add_todo_ignores_blank (with_new_todo (lit "  ") (milk_and_dog (lit "all")))).
  reflexivity.
Defined.

(** Toggling the same in-range subscript twice gives back the store. *)
Theorem toggle_todo_twice s i :
  (- Z.of_nat (total s) ≤ i < Z.of_nat (total s))%Z →
  (toggle_todo i;; toggle_todo i) s = (inr tt, s).
Proof.
  intros Hi. unfold total in Hi.
  pose proof (norm_index_in_range _ _ Hi) as Hk.
  pose proof (position_lt _ _ Hi) as Hlt.
  set (k := position (length (todos s)) i) in *.
  destruct (lookup_lt_is_Some_2 _ _ Hlt) as [t Ht].
  unfold mbind, M_bind, bind.
  rewrite (toggle_todo_eq s i k t) by done.
  rewrite (toggle_todo_eq _ i k (Todo (text t) (negb (completed t)))).
  - unfold with_todos. simpl.
    rewrite list_insert_insert_eq, negb_involutive.
    rewrite list_insert_id; [by destruct s | by destruct t].
  - simpl. by rewrite length_insert.
  - simpl. by apply list_lookup_insert_eq.
Qed.

Lemma toggle_todo_twice_witness :
  (- Z.of_nat (total (milk_and_dog (lit "active"))) ≤ -2
     < Z.of_nat (total (milk_and_dog (lit "active"))))%Z
  ∧ (toggle_todo (-2);; toggle_todo (-2)) (milk_and_dog (lit "active"))
    = (inr tt, milk_and_dog (lit "active")).
Proof.
  split; [vm_compute; split; [discriminate | reflexivity]|].
  apply (toggle_todo_twice (milk_and_dog (lit "active")) (-2)).
  vm_compute; split; [discriminate | reflexivity].
Defined.

(** Adding a task and then deleting the last one ([delete_todo(-1)])
    gives back the task list; what is left of the call pair is the
    cleared input. *)
Theorem add_then_delete_last s :
  strip (new_todo s) ≠ lit "" →
  (add_todo;; delete_todo (-1)) s = (inr tt, with_new_todo (lit "") s).
Proof.
  intros H. unfold mbind, M_bind, bind. rewrite add_todo_eq by done.
  rewrite (delete_todo_eq _ (-1) (length (todos s))).
  - unfold with_todos, with_new_todo. simpl.
    by rewrite (delete_middle (todos s) []), app_nil_r.
  - simpl. rewrite length_app. simpl.
    rewrite norm_index_neg by lia. f_equal. lia.
Qed.

Lemma add_then_delete_last_witness :
  strip (new_todo (with_new_todo (lit " Feed cat") (milk_and_dog (lit "all"))))
    ≠ lit ""
  ∧ (add_todo;; delete_todo (-1))
      (with_new_todo (lit " Feed cat") (milk_and_dog (lit "all")))
    = (inr tt, milk_and_dog (lit "all")).
Proof.
  assert (H : strip (new_todo (with_new_todo (lit " Feed cat")
                                 (milk_and_dog (lit "all")))) ≠ lit "")
    by (vm_compute; discriminate).
  split; [exact H|].
  exact (add_then_delete_last
           (with_new_todo (lit " Feed cat") (milk_and_dog (lit "all"))) H).
Defined.

(** The views under "active" and "completed" split the task list: taken
    together they are a rearrangement of it, their lengths add up to the
    total, and no task is in both. *)
Theorem active_and_completed_split s :
  ∃ a c,
    fst (filtered_todos (with_filter_status (lit "active") s)) = inr a
    ∧ fst (filtered_todos (with_filter_status (lit "completed") s)) = inr c
    ∧ a ++ c ≡ₚ todos s
    ∧ length a + length c = total s
    ∧ Forall (λ t, t ∉ c) a.
Proof.
  exists (comprehension (λ t, negb (completed t)) (todos s)),
         (comprehension completed (todos s)).
  split; [reflexivity|]. split; [reflexivity|].
  pose proof (comprehension_partition completed (todos s)) as Hp.
  split; [exact Hp|]. split.
  - unfold total. apply Permutation_length in Hp.
    by rewrite <- Hp, length_app.
  - eapply Forall_impl; [apply comprehension_Forall|].
    intros t Ht Hc. simpl in Ht.
    pose proof (comprehension_Forall completed (todos s)) as Hall.
    rewrite Forall_forall in Hall. specialize (Hall t Hc). simpl in Hall.
    by rewrite Hall in Ht.
Qed.

(** After [clear_completed] the view under "completed" is empty, and the
    view under "active" is the whole task list, the same view as before
    the call. *)
Theorem clear_completed_then_views s :
  let s' := snd (clear_completed s) in
  fst (filtered_todos (with_filter_status (lit "completed") s')) = inr []
  ∧ fst (filtered_todos (with_filter_status (lit "active") s')) = inr (todos s')
  ∧ fst (filtered_todos (with_filter_status (lit "active") s'))
    = fst (filtered_todos (with_filter_status (lit "active") s)).
Proof.
  simpl. split; [|split].
  - unfold filtered_todos. run_handler. f_equal.
    apply comprehension_none.
    eapply Forall_impl; [apply comprehension_Forall|].
    intros t Ht. simpl in Ht. by destruct (completed t).
  - unfold filtered_todos. run_handler. f_equal. apply comprehension_idemp.
  - unfold filtered_todos. run_handler. f_equal. apply comprehension_idemp.
Qed.

(** No event edits or reorders texts: after any event the texts of the
    tasks, in order, are a selection from the texts before, followed at
    most by the pending input. *)
Theorem events_keep_texts_in_order (e : event) s :
  sublist (text <$> todos (snd (handle e s)))
          ((text <$> todos s) ++ [new_todo s]).
Proof.
  destruct e as [value| |index|index| |status]; simpl.
  - by apply sublist_inserts_r.
  - destruct (decide (strip (new_todo s) = lit "")) as [Hb|Hb].
    + rewrite add_todo_blank by done. by apply sublist_inserts_r.
    + rewrite add_todo_eq by done. simpl. by rewrite fmap_app.
  - apply sublist_inserts_r.
    destruct (norm_index (length (todos s)) index) as [k|] eqn:Hk.
    + destruct (lookup_lt_is_Some_2 (todos s) k) as [t Ht];
        [by eapply norm_index_lt|].
      rewrite (toggle_todo_eq s index k t) by done. simpl.
      by rewrite toggle_keeps_texts.
    + by rewrite toggle_todo_raise.
  - apply sublist_inserts_r.
    destruct (norm_index (length (todos s)) index) as [k|] eqn:Hk.
    + rewrite (delete_todo_eq s index k) by done. simpl.
      apply sublist_fmap_of, sublist_delete.
    + by rewrite delete_todo_raise.
  - apply sublist_inserts_r, sublist_fmap_of, comprehension_sublist.
  - by apply sublist_inserts_r.
Qed.

End IndexedMore.

(** ** Where the texts come from *)

Section IndexedProvenance.
Import Indexed.
Implicit Types (s : TodoState) (e : event) (es : list event).

Lemma run_snoc es e s : run (es ++ [e]) s = snd (handle e (run es s)).
Proof. unfold run. by rewrite foldl_snoc. Qed.

(** One event keeps "every text, and the pending input unless blank,
    satisfies [P]", as long as what the event types satisfies [P]. *)
Lemma handle_keeps_texts_from (P : str → Prop) e s :
  Forall (λ t, P (text t)) (todos s) →
  (strip (new_todo s) ≠ lit "" → P (new_todo s)) →
  (∀ v, e = SetNewTodo v → P v) →
  Forall (λ t, P (text t)) (todos (snd (handle e s)))
  ∧ (strip (new_todo (snd (handle e s))) ≠ lit "" →
     P (new_todo (snd (handle e s)))).
Proof.
  intros Hs Hin He.
  destruct e as [value| |index|index| |status]; simpl; try done.
  - split; [done|]. intros _. by apply He.
  - destruct (decide (strip (new_todo s) = lit "")) as [Hb|Hb].
    + by rewrite add_todo_blank.
    + rewrite add_todo_eq by done. simpl. split; [|done].
      apply Forall_app. split; [done|]. constructor; [|done]. by apply Hin.
  - destruct (norm_index (length (todos s)) index) as [k|] eqn:Hk.
    + destruct (lookup_lt_is_Some_2 (todos s) k) as [t Ht];
        [by eapply norm_index_lt|].
      rewrite (toggle_todo_eq s index k t) by done. simpl. split; [|done].
      apply Forall_insert; [done|]. simpl.
      by apply (Forall_lookup_1 _ _ _ _ Hs Ht).
    + by rewrite toggle_todo_raise.
  - destruct (norm_index (length (todos s)) index) as [k|] eqn:Hk.
    + rewrite (delete_todo_eq s index k) by done. simpl. split; [|done].
      by apply Forall_delete.
    + by rewrite delete_todo_raise.
  - split; [|done].
    eapply Forall_of_sublist; [apply comprehension_sublist | done].
Qed.

Lemma run_texts_from_input es :
  Forall (λ t, SetNewTodo (text t) ∈ es) (todos (run es initial))
  ∧ (strip (new_todo (run es initial)) ≠ lit "" →
     SetNewTodo (new_todo (run es initial)) ∈ es).
Proof.
  induction es as [|e es [IHt IHn]] using rev_ind.
  - split; [constructor | done].
  - rewrite run_snoc.
    apply (handle_keeps_texts_from (λ v, SetNewTodo v ∈ es ++ [e])).
    + eapply Forall_impl; [exact IHt|]. intros t Ht. simpl.
      apply elem_of_app. by left.
    + intros Hn. apply elem_of_app. left. by apply IHn.
    + intros v ->. apply elem_of_app. right. by apply list_elem_of_singleton.
Qed.

(** Starting from the empty store, the text of every task in the list
    is, character for character, a value that was typed into the input
    box ([set_new_todo]) during the events so far. *)
Theorem texts_were_typed es (t : todo) :
  t ∈ todos (run es initial) → SetNewTodo (text t) ∈ es.
Proof.
  intros Ht. destruct (run_texts_from_input es) as [Hall _].
  rewrite Forall_forall in Hall. by apply Hall.
Qed.

Lemma texts_were_typed_witness :
  Todo (lit " a ") false
    ∈ todos (run [SetNewTodo (lit " a "); AddTodo; SetNewTodo (lit "b")] initial)
  ∧ SetNewTodo (text (Todo (lit " a ") false))
    ∈ [SetNewTodo (lit " a "); AddTodo; SetNewTodo (lit "b")].
Proof.
  assert (H : Todo (lit " a ") false
    ∈ todos (run [SetNewTodo (lit " a "); AddTodo; SetNewTodo (lit "b")] initial))
    by (vm_compute; apply list_elem_of_here).
  split; [exact H|].
  exact (texts_were_typed _ _ H).
Defined.

End IndexedProvenance.


(** ** More on stripping *)

Section StripMore.

Lemma lstrip_split (s : str) : ∃ w, s = w ++ lstrip s ∧ blank w = true.
Proof.
  induction s as [|c r (w & Hw & Hb)]; simpl.
  - by exists [].
  - destruct (isspace c) eqn:Hc.
    + exists (c :: w). split; [simpl; by f_equal|].
      unfold blank in *. simpl. by rewrite Hc.
    + by exists [].
Qed.

Lemma lstrip_id (s : str) :
  (∀ c r, s = c :: r → isspace c = false) → lstrip s = s.
Proof.
  destruct s as [|c r]; [done|]. intros H. simpl.
  by rewrite (H c r eq_refl).
Qed.

Lemma lstrip_lstrip (s : str) : lstrip (lstrip s) = lstrip s.
Proof.
  apply lstrip_id. intros c r Hs.
  destruct (lstrip_head s) as [Hn|(c' & r' & Hs' & Hc)]; congruence.
Qed.

(** Stripping a stripped string changes nothing. *)
Lemma strip_strip (s : str) : strip (strip s) = strip s.
Proof.
  unfold strip, rstrip.
  pose proof (lstrip_head s) as Hhead.
  remember (lstrip s) as a eqn:Ea.
  remember (lstrip (rev a)) as b eqn:Eb.
  assert (Hb : lstrip b = b) by (subst b; apply lstrip_lstrip).
  assert (Ha : lstrip (rev b) = rev b).
  { apply lstrip_id. intros c r Hrb.
    destruct (lstrip_split (rev a)) as (w & Hw & _). rewrite <- Eb in Hw.
    apply (f_equal (@rev N)) in Hw.
    rewrite rev_involutive, rev_app_distr, Hrb in Hw. simpl in Hw.
    destruct Hhead as [Hn|(c' & r' & Hs' & Hc)]; congruence. }
  by rewrite Ha, rev_involutive, Hb.
Qed.

End StripMore.

(** ** More on the key-based store *)

Section KeyedMore.
Import Keyed.
Implicit Types (s : TodoState) (key t : task) (l pre post : list task) (j : nat).

Lemma same_key_refl t : same_key t t = true.
Proof. by apply same_key_spec. Qed.

Lemma same_key_flip t key : same_key (flip_completed t) key = same_key t key.
Proof. done. Qed.

Lemma flip_completed_twice t : flip_completed (flip_completed t) = t.
Proof. destruct t as [d c a]. unfold flip_completed. simpl. by rewrite negb_involutive. Qed.

(** The loop stops at the first task with the key and flips it. *)
Lemma toggle_loop_first_match key (i : nat) pre t post l :
  Forall (λ u, same_key u key = false) pre →
  same_key t key = true →
  toggle_loop key i (pre ++ t :: post) l = alter flip_completed (i + length pre) l.
Proof.
  intros Hpre Ht. revert i.
  induction Hpre as [|u pre Hu _ IH]; intros i; simpl.
  - rewrite Ht. by rewrite Nat.add_0_r.
  - rewrite Hu, IH. f_equal. lia.
Qed.

Lemma toggle_first_match key pre t post :
  Forall (λ u, same_key u key = false) pre →
  same_key t key = true →
  toggle_loop key 0 (pre ++ t :: post) (pre ++ t :: post)
  = pre ++ flip_completed t :: post.
Proof.
  intros Hpre Ht. rewrite toggle_loop_first_match by done. simpl.
  by rewrite alter_app_r_alt, Nat.sub_diag.
Qed.

(** A list has no task with the key, or a first one. *)
Lemma first_match_or_none key l :
  Forall (λ u, same_key u key = false) l
  ∨ ∃ pre t post, l = pre ++ t :: post
      ∧ Forall (λ u, same_key u key = false) pre
      ∧ same_key t key = true.
Proof.
  induction l as [|u l [IH|(pre & t & post & -> & Hpre & Ht)]].
  - left. constructor.
  - destruct (same_key u key) eqn:Hu.
    + right. by exists [], u, l.
    + left. by constructor.
  - destruct (same_key u key) eqn:Hu.
    + right. by exists [], u, (pre ++ t :: post).
    + right. exists (u :: pre), t, post. split; [done|]. split; [|done].
      by constructor.
Qed.

Lemma split_at l j t :
  l !! j = Some t → l = take j l ++ t :: drop (S j) l ∧ length (take j l) = j.
Proof.
  intros H. split; [by rewrite take_drop_middle|].
  apply length_take_le. apply lookup_lt_Some in H. lia.
Qed.

Lemma completed_count_length s :
  completed_tasks_count s = length (comprehension completed (tasks s)).
Proof.
  unfold completed_tasks_count.
  induction (comprehension completed (tasks s)) as [|x l IH]; simpl; [done|].
  by rewrite IH.
Qed.

Lemma comprehension_app {A} (p : A → bool) (l k : list A) :
  comprehension p (l ++ k) = comprehension p l ++ comprehension p k.
Proof. apply List.filter_app. Qed.

(** On an input that is empty or all whitespace, [add_task] returns
    normally and changes nothing: no task is added and the input is not
    cleared. *)
Theorem add_task_ignores_blank s (now : str) :
  blank (new_task_description s) = true → add_task now s = (inr tt, s).
Proof. intros H. by apply add_task_blank, strip_blank. Qed.

Lemma add_task_ignores_blank_witness :
  blank (new_task_description (with_new_task_description (lit "  ") twins)) = true
  ∧ add_task (lit "2024-01-01 10:05") (with_new_task_description (lit "  ") twins)
    = (inr tt, with_new_task_description (lit "  ") twins).
Proof.
  split; [reflexivity|].
  apply (add_task_ignores_blank (with_new_task_description (lit "  ") twins)).
  reflexivity.
Defined.

(** [toggle_complete] flips the first task that has the description and
    the creation time of its argument, and nothing else: if position [j]
    holds such a task and no earlier position does, the store afterwards
    differs only by the negated flag at position [j]. *)
Theorem toggle_complete_flips_first_match s key j t :
  tasks s !! j = Some t →
  description t = description key ∧ created_at t = created_at key →
  (∀ i u, i < j → tasks s !! i = Some u →
          ¬ (description u = description key ∧ created_at u = created_at key)) →
  toggle_complete key s
  = (inr tt, with_tasks (<[j := flip_completed t]> (tasks s)) s).
Proof.
  intros Hj Ht Hbefore.
  destruct (split_at _ _ _ Hj) as [Hl Hlen].
  assert (Hpre : Forall (λ u, same_key u key = false) (take j (tasks s))).
  { apply Forall_lookup. intros i u Hi. apply same_key_false.
    apply lookup_take_Some in Hi as [Hi Hlt]. by eapply Hbefore. }
  unfold toggle_complete. run_handler. do 2 f_equal.
  rewrite Hl at 1 2. rewrite toggle_first_match; [|done|by apply same_key_spec].
  rewrite Hl at 3.
  rewrite <- Hlen at 3.
  by rewrite (insert_app_r_alt _ _ (length (take j (tasks s)))), Nat.sub_diag.
Qed.

Lemma toggle_complete_flips_first_match_witness :
  toggle_complete (Task (lit "Walk dog") true (lit "2024-01-01 10:00")) twins
  = (inr tt,
     with_tasks
       (<[1 := flip_completed (Task (lit "Walk dog") false (lit "2024-01-01 10:00"))]>
          (tasks twins))
       twins).
Proof.
  apply (toggle_complete_flips_first_match twins
           (Task (lit "Walk dog") true (lit "2024-01-01 10:00")) 1
           (Task (lit "Walk dog") false (lit "2024-01-01 10:00"))).
  - reflexivity.
  - split; reflexivity.
  - intros i u Hi Hu [Hd _]. destruct i as [|i]; [|lia].
    vm_compute in Hu. injection Hu as <-. vm_compute in Hd. discriminate.
Defined.

(** Toggling twice with the same argument gives back the store, whether
    or not a task has the key. *)
Theorem toggle_complete_twice s key :
  (toggle_complete key;; toggle_complete key) s = (inr tt, s).
Proof.
  unfold toggle_complete. run_handler. unfold with_tasks. simpl.
  destruct s as [l q]. simpl. do 2 f_equal.
  destruct (first_match_or_none key l) as [Hno|(pre & t & post & -> & Hpre & Ht)].
  - rewrite (toggle_loop_no_match key 0 l l) by done.
    by rewrite toggle_loop_no_match.
  - rewrite toggle_first_match by done.
    rewrite toggle_first_match by done.
    by rewrite flip_completed_twice.
Qed.

End KeyedMore.

(** ** The key-based store: counts, deleting, twins *)

Section KeyedCounts.
Import Keyed.
Implicit Types (s : TodoState) (key t : task) (l pre post : list task) (j : nat).

Lemma count_one t :
  length (comprehension completed [flip_completed t]) + (if completed t then 1 else 0)
  = length (comprehension completed [t]) + (if completed t then 0 else 1).
Proof. unfold comprehension. simpl. by destruct (completed t). Qed.

(** The completed count never exceeds the total, and the tasks that are
    not completed make up the difference. *)
Theorem completed_count_bounded s :
  completed_tasks_count s ≤ total_tasks_count s
  ∧ completed_tasks_count s
    + length (comprehension (λ t, negb (completed t)) (tasks s))
    = total_tasks_count s.
Proof.
  rewrite completed_count_length. unfold total_tasks_count.
  pose proof (comprehension_partition completed (tasks s)) as Hp.
  apply Permutation_length in Hp. rewrite length_app in Hp. lia.
Qed.

(** A toggle that finds its task moves the completed count by exactly
    one, up if the task was open and down if it was completed, and
    leaves the total alone. *)
Theorem toggle_complete_moves_count s key j t :
  tasks s !! j = Some t →
  description t = description key ∧ created_at t = created_at key →
  (∀ i u, i < j → tasks s !! i = Some u →
          ¬ (description u = description key ∧ created_at u = created_at key)) →
  let s' := snd (toggle_complete key s) in
  total_tasks_count s' = total_tasks_count s
  ∧ completed_tasks_count s' + (if completed t then 1 else 0)
    = completed_tasks_count s + (if completed t then 0 else 1).
Proof.
  intros Hj Ht Hbefore.
  destruct (split_at _ _ _ Hj) as [Hl Hlen].
  assert (Hpre : Forall (λ u, same_key u key = false) (take j (tasks s))).
  { apply Forall_lookup. intros i u Hi. apply same_key_false.
    apply lookup_take_Some in Hi as [Hi Hlt]. by eapply Hbefore. }
  simpl. rewrite !completed_count_length. unfold total_tasks_count. simpl.
  rewrite Hl. rewrite toggle_first_match; [|done|by apply same_key_spec].
  split; [by rewrite !length_app|].
  rewrite !comprehension_app, !length_app.
  change (flip_completed t :: drop (S j) (tasks s))
    with ([flip_completed t] ++ drop (S j) (tasks s)).
  change (t :: drop (S j) (tasks s)) with ([t] ++ drop (S j) (tasks s)).
  rewrite !comprehension_app, !length_app.
  pose proof (count_one t). lia.
Qed.

Lemma toggle_complete_moves_count_witness :
  total_tasks_count
    (snd (toggle_complete (Task (lit "Buy milk") true (lit "2024-01-01 10:00")) twins))
  = total_tasks_count twins
  ∧ completed_tasks_count
      (snd (toggle_complete (Task (lit "Buy milk") true (lit "2024-01-01 10:00")) twins))
    + 0
    = completed_tasks_count twins + 1.
Proof.
  apply (toggle_complete_moves_count twins
           (Task (lit "Buy milk") true (lit "2024-01-01 10:00")) 0
           (Task (lit "Buy milk") false (lit "2024-01-01 10:00"))).
  - reflexivity.
  - split; reflexivity.
  - intros i u Hi. lia.
Defined.

(** When the task at position [j] is the only one with its description
    and creation time, [delete_task] called with it removes exactly
    position [j]. *)
Theorem delete_task_removes_unique s j t :
  tasks s !! j = Some t →
  (∀ i u, i ≠ j → tasks s !! i = Some u →
          ¬ (description u = description t ∧ created_at u = created_at t)) →
  delete_task t s = (inr tt, with_tasks (delete j (tasks s)) s).
Proof.
  intros Hj Hothers.
  destruct (split_at _ _ _ Hj) as [Hl Hlen].
  unfold delete_task. run_handler. do 2 f_equal.
  rewrite delete_take_drop. rewrite Hl at 1.
  rewrite comprehension_app. simpl. rewrite same_key_refl. simpl. f_equal.
  - apply comprehension_id, Forall_lookup. intros i u Hi.
    apply lookup_take_Some in Hi as [Hi Hlt].
    apply negb_true_iff, same_key_false. eapply Hothers; [|done]. lia.
  - apply comprehension_id, Forall_lookup. intros i u Hi.
    rewrite lookup_drop in Hi.
    apply negb_true_iff, same_key_false. eapply Hothers; [|done]. lia.
Qed.

Lemma delete_task_removes_unique_witness :
  delete_task (Task (lit "Walk dog") false (lit "2024-01-01 10:00")) twins
  = (inr tt, with_tasks (delete 1 (tasks twins)) twins).
Proof.
  apply (delete_task_removes_unique twins 1).
  - reflexivity.
  - intros i u Hi Hu [Hd _].
    destruct i as [|[|[|i]]]; try done; vm_compute in Hu;
      injection Hu as <-; vm_compute in Hd; discriminate.
Defined.

(** Once [delete_task] has run with a key, no task has that key: a
    second [delete_task] and a [toggle_complete] with the same key both
    leave the store as the first call left it. *)
Theorem delete_task_then_nothing_left s key :
  (delete_task key;; delete_task key) s = delete_task key s
  ∧ (delete_task key;; toggle_complete key) s = delete_task key s.
Proof.
  unfold delete_task, toggle_complete. run_handler. unfold with_tasks. simpl.
  split; do 2 f_equal.
  - apply comprehension_idemp.
  - apply toggle_loop_no_match.
    eapply Forall_impl; [apply comprehension_Forall|].
    intros u Hu. simpl in Hu. by apply negb_true_iff.
Qed.

(** Two tasks entered with the same trimmed text within the same minute
    cannot be told apart.  If no task of the store has the key yet, then
    after the two additions a toggle aimed at either row flips the first
    of the two, and one delete removes both, giving back the task list
    from before the additions. *)
Theorem twins_share_one_key s (v v' now : str) :
  strip v ≠ lit "" →
  strip v' = strip v →
  (∀ u, u ∈ tasks s → ¬ (description u = strip v ∧ created_at u = now)) →
  let twin := Task (strip v) false now in
  let s2 := run [SetNewTaskDescription v; AddTask now;
                 SetNewTaskDescription v'; AddTask now] s in
  tasks s2 = tasks s ++ [twin; twin]
  ∧ tasks (snd (toggle_complete twin s2)) = tasks s ++ [flip_completed twin; twin]
  ∧ tasks (snd (delete_task twin s2)) = tasks s.
Proof.
  intros Hv Hv' Hfresh twin s2.
  assert (Hno : Forall (λ u, same_key u twin = false) (tasks s)).
  { apply Forall_forall. intros u Hu. apply same_key_false. by apply Hfresh. }
  assert (Hs2 : tasks s2 = tasks s ++ [twin; twin]).
  { unfold s2, run. simpl.
    rewrite (add_task_eq (with_new_task_description v s)) by done. simpl.
    rewrite add_task_eq by (simpl; by rewrite Hv'). simpl.
    rewrite Hv'. by rewrite <- app_assoc. }
  split; [done|]. split.
  - unfold toggle_complete. run_handler. rewrite Hs2.
    rewrite toggle_first_match; [done|done|apply same_key_refl].
  - unfold delete_task. run_handler. rewrite Hs2.
    rewrite comprehension_app. simpl. rewrite same_key_refl. simpl.
    rewrite app_nil_r. apply comprehension_id.
    eapply Forall_impl; [exact Hno|]. intros u Hu. simpl. by rewrite Hu.
Qed.

Lemma twins_share_one_key_witness :
  tasks (run [SetNewTaskDescription (lit " Feed cat"); AddTask (lit "2024-01-01 10:00");
              SetNewTaskDescription (lit "Feed cat "); AddTask (lit "2024-01-01 10:00")]
             twins)
  = tasks twins ++ [Task (lit "Feed cat") false (lit "2024-01-01 10:00");
                    Task (lit "Feed cat") false (lit "2024-01-01 10:00")].
Proof.
  refine (proj1 (twins_share_one_key twins (lit " Feed cat") (lit "Feed cat ")
                   (lit "2024-01-01 10:00") _ _ _)).
  - vm_compute; discriminate.
  - reflexivity.
  - intros u Hu [Hd _]. unfold twins in Hu. simpl in Hu.
    repeat (apply elem_of_cons in Hu as [->|Hu]; [vm_compute in Hd; discriminate|]).
    by apply elem_of_nil in Hu.
Defined.

End KeyedCounts.

(** ** The key-based store: where the descriptions come from *)

Section KeyedProvenance.
Import Keyed.
Implicit Types (s : TodoState) (e : event) (es : list event).

Lemma keyed_run_snoc es e s : run (es ++ [e]) s = snd (handle e (run es s)).
Proof. unfold run. by rewrite foldl_snoc. Qed.

Lemma keyed_handle_keeps_from (P : str → Prop) e s :
  Forall (λ t, P (description t)) (tasks s) →
  (strip (new_task_description s) ≠ lit "" → P (strip (new_task_description s))) →
  (∀ v, e = SetNewTaskDescription v → P (strip v)) →
  Forall (λ t, P (description t)) (tasks (snd (handle e s)))
  ∧ (strip (new_task_description (snd (handle e s))) ≠ lit "" →
     P (strip (new_task_description (snd (handle e s))))).
Proof.
  intros Hs Hin He.
  destruct e as [value|now|key|key]; simpl; try done.
  - split; [done|]. intros _. by apply He.
  - destruct (decide (strip (new_task_description s) = lit "")) as [Hb|Hb].
    + by rewrite add_task_blank.
    + rewrite add_task_eq by done. simpl. split; [|done].
      apply Forall_app. split; [done|]. constructor; [|done]. by apply Hin.
  - split; [|done].
    apply (Forall_fmap description P).
    rewrite toggle_loop_descriptions.
    by apply (Forall_fmap description P).
  - split; [|done].
    eapply Forall_of_sublist; [apply comprehension_sublist | done].
Qed.

Lemma keyed_run_from_input es :
  Forall (λ t, ∃ v, SetNewTaskDescription v ∈ es ∧ description t = strip v)
         (tasks (run es initial))
  ∧ (strip (new_task_description (run es initial)) ≠ lit "" →
     ∃ v, SetNewTaskDescription v ∈ es
          ∧ strip (new_task_description (run es initial)) = strip v).
Proof.
  induction es as [|e es [IHt IHn]] using rev_ind.
  - split; [constructor | done].
  - rewrite keyed_run_snoc.
    apply (keyed_handle_keeps_from
             (λ d, ∃ v, SetNewTaskDescription v ∈ es ++ [e] ∧ d = strip v)).
    + eapply Forall_impl; [exact IHt|]. intros t (v & Hv & Hd). simpl.
      exists v. split; [|done]. apply elem_of_app. by left.
    + intros Hn. destruct (IHn Hn) as (v & Hv & Hd).
      exists v. split; [|done]. apply elem_of_app. by left.
    + intros v ->. exists v. split; [|done].
      apply elem_of_app. right. by apply list_elem_of_singleton.
Qed.

(** Starting from the empty store, the description of every task is the
    trim of a value that was typed into the input box
    ([set_new_task_description]) during the events so far. *)
Theorem descriptions_were_typed es (t : task) :
  t ∈ tasks (run es initial) →
  ∃ v, SetNewTaskDescription v ∈ es ∧ description t = strip v.
Proof.
  intros Ht. destruct (keyed_run_from_input es) as [Hall _].
  rewrite Forall_forall in Hall. by apply Hall.
Qed.

Lemma descriptions_were_typed_witness :
  ∃ v, SetNewTaskDescription v
         ∈ [SetNewTaskDescription (lit " a "); AddTask (lit "2024-01-01 10:00")]
       ∧ description (Task (lit "a") false (lit "2024-01-01 10:00")) = strip v.
Proof.
  apply (descriptions_were_typed
           [SetNewTaskDescription (lit " a "); AddTask (lit "2024-01-01 10:00")]).
  vm_compute. apply list_elem_of_here.
Defined.

(** Starting from the empty store, no description ever has whitespace
    at either end: stripping a stored description gives it back. *)
Theorem descriptions_are_trimmed es :
  Forall (λ t, strip (description t) = description t) (tasks (run es initial)).
Proof.
  destruct (keyed_run_from_input es) as [Hall _].
  eapply Forall_impl; [exact Hall|].
  intros t (v & _ & ->). apply strip_strip.
Qed.

End KeyedProvenance.
